(** * fix_backdrop_filter.py: the CSS backdrop-filter patcher

    A shallow embedding of [src/fix_backdrop_filter.py] and the properties
    of its line patcher and of its file driver.

    Python [str] values are sequences of Unicode code points; they are
    modelled as lists of code points ([N]).  The regular expression of the
    script is embedded with backtracking matcher combinators in
    continuation-passing style, so that greedy and lazy quantifiers try
    their alternatives in the order Python's [re] engine does. *)

From Stdlib Require Import NArith String Ascii.
From stdpp Require Import list.

Local Open Scope N_scope.

(** ** Python strings *)

Definition char := N.
Definition pystr := list char.

(** A string literal of the script (all of the literals used below are
    ASCII, so a byte is a code point). *)
Definition str (s : string) : pystr :=
  List.map N_of_ascii (list_ascii_of_string s).
Arguments str _%_string : simpl never.

Definition NL : char := 10.
Definition CR : char := 13.

(** [css_content.split('\n')]: cuts at every newline; the result is never
    empty (the empty string gives one empty line). *)
Fixpoint split (s : pystr) : list pystr :=
  match s with
  | [] => [[]]
  | c :: s' =>
      if c =? NL then [] :: split s'
      else match split s' with
           | l :: ls => (c :: l) :: ls
           | [] => [[c]]
           end
  end.

(** ['\n'.join(modified_lines)]. *)
Fixpoint join (ls : list pystr) : pystr :=
  match ls with
  | [] => []
  | [l] => l
  | l :: ls' => l ++ NL :: join ls'
  end.

(** [s.startswith(p)], used by the substring test. *)
Fixpoint startswith (p s : pystr) : bool :=
  match p, s with
  | [], _ => true
  | _ :: _, [] => false
  | a :: p', b :: s' => (a =? b) && startswith p' s'
  end.

(** [needle in hay] on strings: [needle] occurs in [hay] as a contiguous
    substring. *)
Fixpoint contains (needle hay : pystr) : bool :=
  startswith needle hay ||
  match hay with
  | [] => false
  | _ :: hay' => contains needle hay'
  end.

(** ** The regular expression

    [\s] in a [str] pattern is Unicode white space, the code points for
    which [str.isspace] holds. *)
Definition is_space (c : char) : bool :=
  ((9 <=? c) && (c <=? 13)) || ((28 <=? c) && (c <=? 32))
  || (c =? 133) || (c =? 160) || (c =? 5760)
  || ((8192 <=? c) && (c <=? 8202))
  || (c =? 8232) || (c =? 8233) || (c =? 8239) || (c =? 8287)
  || (c =? 12288).

(** [.] without DOTALL: any code point but the newline. *)
Definition is_dot (c : char) : bool := negb (c =? NL).

Section Matchers.
Context {R : Type}.

(** A literal run of characters. *)
Fixpoint lit (w s : pystr) (k : pystr → option R) : option R :=
  match w with
  | [] => k s
  | c :: w' =>
      match s with
      | d :: s' => if c =? d then lit w' s' k else None
      | [] => None
      end
  end.

(** [p*], greedy: the longest run first, then shorter ones.  [acc] is
    the text consumed so far, handed to the continuation for capture. *)
Fixpoint star_greedy (p : char → bool) (acc s : pystr)
    (k : pystr → pystr → option R) : option R :=
  match s with
  | c :: s' =>
      if p c then
        match star_greedy p (acc ++ [c]) s' k with
        | Some r => Some r
        | None => k acc s
        end
      else k acc s
  | [] => k acc s
  end.

(** [p+], greedy: one character, then [p*]. *)
Definition plus_greedy (p : char → bool) (s : pystr)
    (k : pystr → pystr → option R) : option R :=
  match s with
  | c :: s' => if p c then star_greedy p [c] s' k else None
  | [] => None
  end.

(** [p*?], lazy: the shortest run first, then longer ones. *)
Fixpoint star_lazy (p : char → bool) (acc s : pystr)
    (k : pystr → pystr → option R) : option R :=
  match k acc s with
  | Some r => Some r
  | None =>
      match s with
      | c :: s' => if p c then star_lazy p (acc ++ [c]) s' k else None
      | [] => None
      end
  end.

(** [$] without MULTILINE: the end of the string, or just before a
    newline that is its last character. *)
Definition eol (s : pystr) (k : pystr → option R) : option R :=
  match s with
  | [] => k s
  | [c] => if c =? NL then k s else None
  | _ => None
  end.
End Matchers.

(** [re.match(r'^(\s+)backdrop-filter:\s*(.*?);$', line)]: the groups
    (indent, value) of the first match in backtracking order, or [None]. *)
Definition re_match (line : pystr) : option (pystr * pystr) :=
  plus_greedy is_space line (λ indent s1,
    lit (str "backdrop-filter:") s1 (λ s2,
      star_greedy is_space [] s2 (λ _ s3,
        star_lazy is_dot [] s3 (λ value s4,
          lit (str ";") s4 (λ s5,
            eol s5 (λ _, Some (indent, value))))))).

(** ** The line patcher *)

(** [f"{indent}-webkit-backdrop-filter: {value};"] *)
Definition webkit_line (indent value : pystr) : pystr :=
  indent ++ str "-webkit-backdrop-filter: " ++ value ++ str ";".

(** [enumerate(lines)] *)
Definition enumerate (lines : list pystr) : list (nat * pystr) :=
  zip (seq 0 (length lines)) lines.

(** One iteration of the [for] loop: the new [modified_lines]. *)
Definition loop_body (lines modified_lines : list pystr)
    (il : nat * pystr) : list pystr :=
  let '(i, line) := il in
  match re_match line with
  | Some (indent, value) =>
      let prev_line :=
        if (0 <? i)%nat then default [] (lines !! (i - 1)%nat) else [] in
      let webkit_pattern := webkit_line indent value in
      if negb (contains webkit_pattern prev_line) then
        (modified_lines ++ [webkit_line indent value]) ++ [line]
      else
        modified_lines ++ [line]
  | None => modified_lines ++ [line]
  end.

(** The loop over all lines, from [modified_lines = []]. *)
Definition patch_lines (lines : list pystr) : list pystr :=
  foldl (loop_body lines) [] (enumerate lines).

Definition fix_backdrop_filter (css_content : pystr) : pystr :=
  let lines := split css_content in
  join (patch_lines lines).

(** ** Auxiliary views of the loop, used to state and prove properties *)

(** The lines one iteration appends, as a function of the preceding
    original line. *)
Definition emitted (prev_line line : pystr) : list pystr :=
  match re_match line with
  | Some (indent, value) =>
      if contains (webkit_line indent value) prev_line then [line]
      else [webkit_line indent value; line]
  | None => [line]
  end.

(** The lines appended by the iterations over [rest], when the original
    line just before [rest] is [prev] (the empty string at the start). *)
Fixpoint resume (prev : pystr) (rest : list pystr) : list pystr :=
  match rest with
  | [] => []
  | line :: rest' => emitted prev line ++ resume line rest'
  end.

Definition no_newline (l : pystr) : Prop := NL ∉ l.

Definition all (p : char → bool) (s : pystr) : Prop :=
  Forall (λ c, p c = true) s.

(** The next character, if any, fails [p]: a greedy run stops here. *)
Definition stops (p : char → bool) (s : pystr) : Prop :=
  match s with
  | [] => True
  | c :: _ => p c = false
  end.

(** [lines[i-1] if i > 0 else ""] *)
Definition prev_line_at (lines : list pystr) (i : nat) : pystr :=
  if (0 <? i)%nat then default [] (lines !! (i - 1)%nat) else [].

(** [bool(re.match(pattern, line))]: the line is a declaration line. *)
Definition is_match (line : pystr) : bool :=
  match re_match line with
  | Some _ => true
  | None => false
  end.

(** Every declaration line of [out] comes right after a line that holds
    its prefixed line as a substring; [prev] is the line before [out]. *)
Fixpoint prefixed (prev : pystr) (out : list pystr) : Prop :=
  match out with
  | [] => True
  | line :: out' =>
      (∀ indent value,
         re_match line = Some (indent, value) →
         contains (webkit_line indent value) prev = true)
      ∧ prefixed line out'
  end.

(** ** The file driver

    The script reads the file, patches the text, writes it back and prints
    a notice, inside one [try]/[except Exception].  The file system is the
    world outside the script: reading and writing either succeed or raise,
    and both may change the world (opening for writing truncates).
    Printing may raise as well: both notices hold characters outside
    ASCII, which the standard output may be unable to encode. *)

(** An instance of Python's [Exception] (here [OSError],
    [UnicodeDecodeError], [UnicodeEncodeError], ...): what the file
    operations and [print] raise.  [exc_str e] is [str(e)], its
    description. *)
Record Exception := { exc_str : pystr }.

Section Driver.
Variable World : Type.

(** [with open(path, 'r', encoding='utf-8') as f: f.read()]: the text as
    [read] returns it, decoded and with the newlines as text mode gives
    them. *)
Variable read_file : pystr → World → World * (Exception + pystr).

(** [with open(path, 'w', encoding='utf-8') as f: f.write(content)] *)
Variable write_file : pystr → pystr → World → World * (Exception + unit).

(** Writing a text to the standard output, given the world and what was
    printed so far: [None] when the text is written, [Some e] when the
    write raises [e] (the text cannot be encoded, the stream is closed)
    and nothing is written. *)
Variable write_stdout : pystr → World → list pystr → option Exception.

(** The state a run threads: the world and what was printed so far, one
    entry per [print] call, oldest first. *)
Record state := { world : World; stdout : list pystr }.

(** A computation either returns or raises. *)
Definition io (A : Type) : Type := state → state * (Exception + A).

Definition ret {A} (a : A) : io A := λ st, (st, inr a).

Definition bind {A B} (m : io A) (f : A → io B) : io B :=
  λ st,
    match m st with
    | (st', inl e) => (st', inl e)
    | (st', inr a) => f a st'
    end.

(** [try: body  except Exception as e: handler e] *)
Definition try_except {A} (body : io A) (handler : Exception → io A) : io A :=
  λ st,
    match body st with
    | (st', inl e) => handler e st'
    | (st', inr a) => (st', inr a)
    end.

Definition read (path : pystr) : io pystr :=
  λ st,
    let '(w, r) := read_file path (world st) in
    ({| world := w; stdout := stdout st |}, r).

Definition write (path content : pystr) : io unit :=
  λ st,
    let '(w, r) := write_file path content (world st) in
    ({| world := w; stdout := stdout st |}, r).

(** [print(s)]: appends the text to the standard output, or raises and
    leaves the standard output as it was. *)
Definition print (s : pystr) : io unit :=
  λ st,
    match write_stdout s (world st) (stdout st) with
    | Some e => (st, inl e)
    | None => ({| world := world st; stdout := stdout st ++ [s] |}, inr tt)
    end.

Definition css_file : pystr :=
  str "/Users/wellszhang/Documents/GitHub/MCSChat/legacy/styles-legacy.css".

(** The success notice: a check mark and a sentence around
    [backdrop-filter], as code points. *)
Definition success_notice : pystr :=
  [9989; 32; 25152; 26377; 32] ++ str "backdrop-filter"
  ++ [32; 20860; 23481; 24615; 38382; 39064; 24050; 20462; 22797; 33].

(** The error notice [f"<cross mark> <error>: {e}"], as code points. *)
Definition error_notice (e : Exception) : pystr :=
  [10060; 32; 38169; 35823; 58; 32] ++ exc_str e.

Definition main : io unit :=
  try_except
    (bind (read css_file) (λ css_content,
     let fixed_content := fix_backdrop_filter css_content in
     bind (write css_file fixed_content) (λ _,
     print success_notice)))
    (λ e, print (error_notice e)).

(** Running the script: [main()] from an empty standard output.  The
    exit status is 0 when [main] returns and 1 when an exception leaves
    it. *)
Definition run_script (w : World) : state * nat :=
  match main {| world := w; stdout := [] |} with
  | (st, inl _) => (st, 1%nat)
  | (st, inr _) => (st, 0%nat)
  end.
End Driver.

Arguments world {World} _.
Arguments stdout {World} _.

(** A small file system to run the driver on: the file is missing
    ([None]) or holds a text.  Reading a missing file raises; writing
    replaces the text. *)
Definition demo_read (_ : pystr) (w : option pystr)
    : option pystr * (Exception + pystr) :=
  match w with
  | None => (w, inl {| exc_str := str "[Errno 2] No such file or directory" |})
  | Some s => (w, inr s)
  end.

Definition demo_write (_ content : pystr) (_ : option pystr)
    : option pystr * (Exception + unit) :=
  (Some content, inr tt).

(** A standard output that takes every text (a UTF-8 terminal). *)
Definition demo_stdout_utf8 (_ : pystr) (_ : option pystr) (_ : list pystr)
    : option Exception :=
  None.

(** A standard output with the ASCII encoding: a text with a code point
    above 127 raises [UnicodeEncodeError]. *)
Definition demo_stdout_ascii (s : pystr) (_ : option pystr) (_ : list pystr)
    : option Exception :=
  if forallb (λ c, c <? 128) s then None
  else Some {| exc_str := str "'ascii' codec can't encode character" |}.

(** ** Strings: literals, split and join *)

Lemma split_nonempty s : split s ≠ [].
Proof.
  destruct s as [|c s]; simpl; [done|].
  destruct (c =? NL); [done|]. by destruct (split s).
Qed.

Lemma split_no_newline s : Forall no_newline (split s).
Proof.
  induction s as [|c s IH]; simpl.
  - constructor; [|constructor]. unfold no_newline. apply not_elem_of_nil.
  - destruct (N.eqb_spec c NL) as [->|Hc].
    + constructor; [|done]. unfold no_newline. apply not_elem_of_nil.
    + destruct (split s) as [|l ls].
      * constructor; [|done]. unfold no_newline.
        rewrite elem_of_cons, elem_of_nil. intros [?|?]; [by subst|done].
      * inversion IH as [|? ? Hl Hls]; subst.
        constructor; [|done]. unfold no_newline in *.
        rewrite elem_of_cons. intros [?|?]; [by subst|done].
Qed.

Lemma join_cons l l' ls : join (l :: l' :: ls) = l ++ NL :: join (l' :: ls).
Proof. done. Qed.

Lemma split_app_no_newline l s :
  no_newline l → split (l ++ NL :: s) = l :: split s.
Proof.
  unfold no_newline. induction l as [|c l IH]; intros Hl; simpl.
  - done.
  - apply not_elem_of_cons in Hl as [Hc Hl].
    destruct (N.eqb_spec c NL) as [->|_]; [done|].
    by rewrite (IH Hl).
Qed.

Lemma split_single l : no_newline l → split l = [l].
Proof.
  unfold no_newline. induction l as [|c l IH]; intros Hl; simpl; [done|].
  apply not_elem_of_cons in Hl as [Hc Hl].
  destruct (N.eqb_spec c NL) as [->|_]; [done|].
  by rewrite (IH Hl).
Qed.

(** Splitting undoes joining, for a non-empty list of newline-free lines. *)
Lemma split_join ls :
  ls ≠ [] → Forall no_newline ls → split (join ls) = ls.
Proof.
  induction ls as [|l ls IH]; [done|]. intros _ Hall.
  inversion Hall as [|? ? Hl Hls]; subst.
  destruct ls as [|l' ls].
  - simpl. by apply split_single.
  - rewrite join_cons, split_app_no_newline by done.
    f_equal. by apply IH.
Qed.

(** Joining undoes splitting. *)
Lemma join_split s : join (split s) = s.
Proof.
  induction s as [|c s IH]; simpl; [done|].
  destruct (N.eqb_spec c NL) as [->|_].
  - pose proof (split_nonempty s) as Hne.
    destruct (split s) as [|l ls]; [done|].
    simpl in *. by rewrite IH.
  - pose proof (split_nonempty s) as Hne.
    destruct (split s) as [|l ls]; [done|].
    destruct ls as [|l' ls]; simpl in *; by rewrite <- IH.
Qed.

(** ** The substring test *)

Lemma startswith_spec p s : startswith p s = true ↔ ∃ t, s = p ++ t.
Proof.
  revert s. induction p as [|a p IH]; intros s; simpl.
  - split; [eauto|done].
  - destruct s as [|b s].
    + split; [done|]. by intros [t ?].
    + rewrite andb_true_iff, N.eqb_eq, IH. split.
      * intros [-> [t ->]]. eauto.
      * intros [t Ht]. simplify_eq. eauto.
Qed.

Lemma contains_spec needle hay :
  contains needle hay = true ↔ ∃ a b, hay = a ++ needle ++ b.
Proof.
  induction hay as [|c hay IH]; simpl.
  - rewrite orb_false_r, startswith_spec. split.
    + intros [t Ht]. by exists [], t.
    + intros (a & b & Hab). exists b.
      destruct a; [done|discriminate].
  - rewrite orb_true_iff, startswith_spec, IH. split.
    + intros [[t Ht]|(a & b & ->)].
      * by exists [], t.
      * by exists (c :: a), b.
    + intros (a & b & Hab). destruct a as [|c' a]; simpl in *.
      * left. eauto.
      * right. simplify_eq. eauto.
Qed.

Lemma contains_refl s : contains s s = true.
Proof. apply contains_spec. exists [], []. by rewrite app_nil_r. Qed.

Lemma contains_nil_r needle : needle ≠ [] → contains needle [] = false.
Proof. destruct needle; [done|]. done. Qed.

(** ** The matcher combinators *)

(** Closes a goal whose witness for the consumed run is the empty one. *)
Local Ltac empty_run :=
  split_and!; [done | constructor | by rewrite ?app_nil_r].

Section MatcherFacts.
Context {R : Type}.
Implicit Types (k : pystr → option R) (kk : pystr → pystr → option R).

Lemma lit_app w s k : lit w (w ++ s) k = k s.
Proof.
  induction w as [|c w IH]; simpl; [done|]. by rewrite N.eqb_refl.
Qed.

Lemma lit_Some w s k r :
  lit w s k = Some r → ∃ s', s = w ++ s' ∧ k s' = Some r.
Proof.
  revert s. induction w as [|c w IH]; intros s H; simpl in *.
  - eauto.
  - destruct s as [|d s]; [done|].
    destruct (N.eqb_spec c d) as [->|_]; [|done].
    destruct (IH _ H) as (s' & -> & Hk). eauto.
Qed.

Lemma lit_cons c w d s k :
  lit (c :: w) (d :: s) k = if c =? d then lit w s k else None.
Proof. done. Qed.

Lemma star_greedy_Some p acc s kk r :
  star_greedy p acc s kk = Some r →
  ∃ a b, s = a ++ b ∧ all p a ∧ kk (acc ++ a) b = Some r.
Proof.
  revert acc. induction s as [|c s IH]; intros acc H; simpl in H.
  - exists [], []. empty_run.
  - destruct (p c) eqn:Hp.
    + destruct (star_greedy p (acc ++ [c]) s kk) as [r'|] eqn:Hrec.
      * simplify_eq. destruct (IH _ Hrec) as (a & b & -> & Ha & Hk).
        exists (c :: a), b. rewrite <- app_assoc in Hk.
        split_and!; [done|by constructor|done].
      * exists [], (c :: s). empty_run.
    + exists [], (c :: s). empty_run.
Qed.

Lemma plus_greedy_Some p s kk r :
  plus_greedy p s kk = Some r →
  ∃ a b, s = a ++ b ∧ a ≠ [] ∧ all p a ∧ kk a b = Some r.
Proof.
  unfold plus_greedy. destruct s as [|c s]; [done|].
  destruct (p c) eqn:Hp; [|done]. intros H.
  destruct (star_greedy_Some _ _ _ _ _ H) as (a & b & -> & Ha & Hk).
  exists (c :: a), b. split_and!; [done|done|by constructor|done].
Qed.

Lemma star_lazy_Some p acc s kk r :
  star_lazy p acc s kk = Some r →
  ∃ a b, s = a ++ b ∧ all p a ∧ kk (acc ++ a) b = Some r.
Proof.
  revert acc. induction s as [|c s IH]; intros acc H; simpl in H.
  - destruct (kk acc []) eqn:Hk; [|done]. simplify_eq.
    exists [], []. empty_run.
  - destruct (kk acc (c :: s)) eqn:Hk.
    + simplify_eq. exists [], (c :: s). empty_run.
    + destruct (p c) eqn:Hp; [|done].
      destruct (IH _ H) as (a & b & -> & Ha & Hk').
      exists (c :: a), b. rewrite <- app_assoc in Hk'.
      split_and!; [done|by constructor|done].
Qed.

Lemma eol_Some s k r :
  eol s k = Some r → (s = [] ∨ s = [NL]) ∧ k s = Some r.
Proof.
  destruct s as [|c [|d s]]; simpl; [by eauto| |done].
  destruct (N.eqb_spec c NL) as [->|_]; [by eauto|done].
Qed.

(** The greedy star takes the whole run when the continuation accepts
    it. *)
Lemma star_greedy_max p acc a b kk r :
  all p a → stops p b → kk (acc ++ a) b = Some r →
  star_greedy p acc (a ++ b) kk = Some r.
Proof.
  intros Ha Hb. revert acc.
  induction Ha as [|c a Hc Ha IH]; intros acc Hk; simpl.
  - rewrite app_nil_r in Hk. destruct b as [|d b]; simpl in *; [done|].
    by rewrite Hb.
  - rewrite Hc, IH; [done|]. by rewrite <- app_assoc.
Qed.

Lemma plus_greedy_max p c a b kk r :
  all p (c :: a) → stops p b → kk (c :: a) b = Some r →
  plus_greedy p ((c :: a) ++ b) kk = Some r.
Proof.
  intros Hca Hb Hk. inversion Hca as [|? ? Hc Ha]; subst.
  simpl. rewrite Hc. by apply star_greedy_max.
Qed.

(** The lazy star stops at the first split the continuation accepts. *)
Lemma star_lazy_first p acc v rest kk r :
  all p v →
  (∀ v1 c v2, v = v1 ++ c :: v2 → kk (acc ++ v1) (c :: v2 ++ rest) = None) →
  kk (acc ++ v) rest = Some r →
  star_lazy p acc (v ++ rest) kk = Some r.
Proof.
  intros Hv. revert acc.
  induction Hv as [|c v Hc Hv IH]; intros acc Hno Hk.
  - rewrite app_nil_r in Hk. simpl. destruct rest; simpl; by rewrite Hk.
  - simpl. pose proof (Hno [] c v eq_refl) as H0.
    rewrite app_nil_r in H0. rewrite H0, Hc.
    apply IH.
    + intros v1 d v2 ->.
      rewrite <- app_assoc. apply (Hno (c :: v1) d v2). done.
    + by rewrite <- app_assoc.
Qed.
End MatcherFacts.

(** ** The declaration pattern *)

(** The shape of a matching line: white space, the property name, white
    space, the value, a semicolon, and nothing more but one optional final
    newline. *)
Lemma re_match_Some line indent value :
  re_match line = Some (indent, value) →
  ∃ ws tail,
    line = indent ++ str "backdrop-filter:" ++ ws ++ value ++ str ";" ++ tail
    ∧ indent ≠ [] ∧ all is_space indent ∧ all is_space ws
    ∧ all is_dot value ∧ (tail = [] ∨ tail = [NL]).
Proof.
  unfold re_match. intros H.
  apply plus_greedy_Some in H as (ind & s1 & -> & Hne & Hind & H).
  apply lit_Some in H as (s2 & -> & H).
  apply star_greedy_Some in H as (ws & s3 & -> & Hws & H).
  apply star_lazy_Some in H as (v & s4 & -> & Hv & H).
  apply lit_Some in H as (s5 & -> & H).
  apply eol_Some in H as [Htail H]. simplify_eq.
  exists ws, s5. by rewrite <- !app_assoc.
Qed.

(** Two runs of [p]-characters that end at a non-[p] character of the same
    text are the same run. *)
Lemma run_unique (p : char → bool) a a' c d x y :
  all p a → all p a' → p c = false → p d = false →
  a ++ c :: x = a' ++ d :: y → a = a' ∧ c = d ∧ x = y.
Proof.
  intros Ha. revert a'.
  induction Ha as [|e a He Ha IH]; intros a' Ha' Hc Hd Heq.
  - destruct Ha' as [|e' a' He' Ha']; simpl in *; simplify_eq; [done|].
    congruence.
  - destruct Ha' as [|e' a' He' Ha']; simpl in *; simplify_eq.
    + congruence.
    + destruct (IH a' Ha' Hc Hd) as (-> & -> & ->); done.
Qed.

(** A line matches only if its first character is white space. *)
Lemma re_match_stops line : stops is_space line → re_match line = None.
Proof.
  unfold re_match, plus_greedy. destruct line as [|c line]; simpl; [done|].
  by intros ->.
Qed.

(** A line whose white-space prefix is followed by a character other than
    [b] does not match. *)
Lemma re_match_other_head indent c rest :
  all is_space indent → is_space c = false → c ≠ 98 →
  re_match (indent ++ c :: rest) = None.
Proof.
  intros Hind Hc Hb.
  destruct (re_match (indent ++ c :: rest)) as [[ind v]|] eqn:H; [|done].
  apply re_match_Some in H as (ws & tail & Heq & _ & Hind' & _).
  change (str "backdrop-filter:") with (98 :: str "ackdrop-filter:") in Heq.
  cbn in Heq.
  by destruct (run_unique is_space _ _ c 98 _ _ Hind Hind' Hc eq_refl Heq)
    as (_ & ? & _).
Qed.

(** The prefixed line built from a matched indent is not itself a
    declaration line. *)
Lemma re_match_webkit_line indent value :
  all is_space indent → re_match (webkit_line indent value) = None.
Proof.
  intros Hind. unfold webkit_line.
  change (str "-webkit-backdrop-filter: ")
    with (45 :: str "webkit-backdrop-filter: ").
  cbn. by apply re_match_other_head.
Qed.

(** A matching line ends with the semicolon, or with the semicolon and one
    newline. *)
Lemma re_match_last line indent value :
  re_match line = Some (indent, value) →
  ∃ body, line = body ++ [59] ∨ line = body ++ [59; NL].
Proof.
  intros H. apply re_match_Some in H as (ws & tail & -> & _ & _ & _ & _ & Ht).
  exists (indent ++ str "backdrop-filter:" ++ ws ++ value).
  rewrite <- !app_assoc. destruct Ht as [->| ->]; [left|right]; done.
Qed.

(** Conversely, every newline-free text of that shape matches, and the
    groups are the whole white-space prefix and the text between the white
    space after the colon and the final semicolon. *)
Lemma re_match_complete indent ws value :
  indent ≠ [] → all is_space indent → all is_space ws →
  stops is_space value → all is_dot value →
  re_match (indent ++ str "backdrop-filter:" ++ ws ++ value ++ str ";")
  = Some (indent, value).
Proof.
  intros Hne Hind Hws Hstop Hv. unfold re_match.
  destruct indent as [|c indent]; [done|].
  apply plus_greedy_max; [done|done|].
  rewrite lit_app.
  apply star_greedy_max; [done| |].
  { destruct value; [done|]. done. }
  apply star_lazy_first; [done| |].
  - intros v1 d v2 ->. change (str ";") with [59]. rewrite lit_cons.
    destruct (N.eqb_spec 59 d) as [<-|_]; [|done].
    by destruct v2 as [|e [|f v2]].
  - change (str ";") with ([59] ++ []). by rewrite lit_app.
Qed.

(** ** The loop *)

(** An iteration only appends to [modified_lines]. *)
Lemma loop_body_emitted lines acc i line :
  loop_body lines acc (i, line) = acc ++ emitted (prev_line_at lines i) line.
Proof.
  unfold loop_body, emitted, prev_line_at.
  destruct (re_match line) as [[indent value]|]; [|done].
  destruct (contains _ _); cbn; [done|]. by rewrite <- app_assoc.
Qed.

(** The predecessor of the line at index [length pre]. *)
Lemma prev_line_at_app pre rest :
  prev_line_at (pre ++ rest) (length pre) = default [] (last pre).
Proof.
  unfold prev_line_at. destruct pre as [|l pre _] using rev_ind; [done|].
  rewrite last_snoc, length_app. cbn [length].
  replace (length pre + 1)%nat with (S (length pre)) by lia.
  cbn [Nat.ltb Nat.leb Nat.sub]. rewrite Nat.sub_0_r, <- app_assoc.
  cbn [app]. by rewrite list_lookup_middle.
Qed.

Lemma foldl_loop_body pre rest acc :
  foldl (loop_body (pre ++ rest)) acc (zip (seq (length pre) (length rest)) rest)
  = acc ++ resume (default [] (last pre)) rest.
Proof.
  revert pre acc. induction rest as [|l rest IH]; intros pre acc.
  - cbn. by rewrite app_nil_r.
  - cbn [length seq zip_with foldl resume].
    rewrite loop_body_emitted, prev_line_at_app.
    replace (pre ++ l :: rest) with ((pre ++ [l]) ++ rest)
      by (by rewrite <- app_assoc).
    replace (S (length pre)) with (length (pre ++ [l]))
      by (rewrite length_app; cbn; lia).
    by rewrite IH, last_snoc, <- app_assoc.
Qed.

(** The loop of the script, seen as a recursion over the lines that
    carries the preceding original line. *)
Lemma patch_lines_resume lines : patch_lines lines = resume [] lines.
Proof. apply (foldl_loop_body [] lines []). Qed.

Lemma emitted_cases prev line :
  emitted prev line = [line] ∨
  ∃ indent value,
    re_match line = Some (indent, value)
    ∧ contains (webkit_line indent value) prev = false
    ∧ emitted prev line = [webkit_line indent value; line].
Proof.
  unfold emitted. destruct (re_match line) as [[indent value]|]; [|by left].
  destruct (contains _ _) eqn:Hc; [by left|right; eauto].
Qed.

Lemma emitted_no_match prev line :
  re_match line = None → emitted prev line = [line].
Proof. unfold emitted. by intros ->. Qed.

Lemma resume_app prev a b :
  resume prev (a ++ b) = resume prev a ++ resume (default prev (last a)) b.
Proof.
  revert prev. induction a as [|l a IH]; intros prev; [done|].
  cbn [app resume]. rewrite IH, <- app_assoc. do 2 f_equal.
  destruct a as [|l' a]; [done|]. rewrite last_cons_cons.
  by destruct (last (l' :: a)) eqn:Hl; [|by apply last_None in Hl].
Qed.

(** Every line of the input is in the output, in the same order. *)
Lemma resume_sublist prev rest : rest `sublist_of` resume prev rest.
Proof.
  revert prev. induction rest as [|l rest IH]; intros prev; [constructor|].
  cbn [resume].
  destruct (emitted_cases prev l) as [->|(ind & v & _ & _ & ->)]; cbn.
  - by constructor.
  - apply sublist_cons. by constructor.
Qed.

Lemma resume_nonempty prev rest : rest ≠ [] → resume prev rest ≠ [].
Proof.
  intros Hne Hnil. pose proof (resume_sublist prev rest) as Hs.
  rewrite Hnil in Hs. by apply sublist_nil_r in Hs.
Qed.

(** A boolean test for newline-free text. *)
Lemma no_newline_check l : forallb is_dot l = true → no_newline l.
Proof.
  unfold no_newline. induction l as [|c l IH]; cbn.
  - intros _. apply not_elem_of_nil.
  - rewrite andb_true_iff. intros [Hc Hl]. apply not_elem_of_cons.
    split; [|by apply IH]. intros <-. discriminate.
Qed.

(** The groups of a newline-free line hold no newline. *)
Lemma webkit_line_no_newline line indent value :
  re_match line = Some (indent, value) → no_newline line →
  no_newline (webkit_line indent value).
Proof.
  intros H Hl. apply re_match_Some in H as (ws & tail & -> & _).
  pose proof (no_newline_check (str "-webkit-backdrop-filter: ") eq_refl).
  pose proof (no_newline_check (str ";") eq_refl).
  unfold no_newline, webkit_line in *.
  rewrite !elem_of_app in *. tauto.
Qed.

Lemma resume_no_newline prev rest :
  Forall no_newline rest → Forall no_newline (resume prev rest).
Proof.
  intros Hall. revert prev.
  induction Hall as [|l rest Hl Hall IH]; intros prev; [constructor|].
  cbn [resume]. apply Forall_app. split; [|apply IH].
  destruct (emitted_cases prev l) as [->|(ind & v & Hm & _ & ->)].
  - by repeat constructor.
  - repeat constructor; [|done]. by eapply webkit_line_no_newline.
Qed.

(** Running the loop on its own output adds nothing. *)
Lemma resume_idempotent prev rest :
  resume prev (resume prev rest) = resume prev rest.
Proof.
  revert prev. induction rest as [|l rest IH]; intros prev; [done|].
  cbn [resume].
  destruct (emitted_cases prev l) as [Hl|(ind & v & Hm & Hc & Hl)];
    rewrite Hl.
  - cbn [app resume]. by rewrite Hl, IH.
  - cbn [app resume].
    apply re_match_Some in Hm as Hshape.
    destruct Hshape as (ws & tail & _ & _ & Hind & _).
    rewrite (emitted_no_match prev (webkit_line ind v))
      by (by apply re_match_webkit_line).
    unfold emitted at 1. rewrite Hm, contains_refl.
    cbn [app]. by rewrite IH.
Qed.

(** The output around one line: what the loop gave for the lines before
    it, then what this iteration appends, then the rest. *)
Lemma patch_lines_at pre line post :
  patch_lines (pre ++ line :: post)
  = patch_lines pre ++ emitted (default [] (last pre)) line ++ resume line post.
Proof. by rewrite !patch_lines_resume, resume_app. Qed.

Lemma patch_lines_after pre prev line post :
  patch_lines (pre ++ prev :: line :: post)
  = patch_lines (pre ++ [prev]) ++ emitted prev line ++ resume line post.
Proof.
  replace (pre ++ prev :: line :: post) with ((pre ++ [prev]) ++ line :: post)
    by (by rewrite <- app_assoc).
  by rewrite patch_lines_at, last_snoc.
Qed.

(** The lines of the output text are the lines the loop produced. *)
Lemma split_fix_backdrop_filter s :
  split (fix_backdrop_filter s) = patch_lines (split s).
Proof.
  unfold fix_backdrop_filter. rewrite patch_lines_resume.
  apply split_join.
  - apply resume_nonempty, split_nonempty.
  - apply resume_no_newline, split_no_newline.
Qed.

(** The prefixed line is never empty, so the empty predecessor of the
    first line never holds it. *)
Lemma contains_webkit_line_nil indent value :
  contains (webkit_line indent value) [] = false.
Proof.
  apply contains_nil_r. unfold webkit_line.
  destruct indent; [|done]. by vm_compute.
Qed.

(** A matching line after which the expected prefixed line is missing from
    the predecessor gets it inserted; the first line always does. *)
Lemma patch_lines_first_match line post indent value :
  re_match line = Some (indent, value) →
  patch_lines (line :: post)
  = webkit_line indent value :: line :: resume line post.
Proof.
  intros Hm.
  rewrite (patch_lines_at [] line post : patch_lines (line :: post) = _).
  unfold emitted. by rewrite Hm, contains_webkit_line_nil.
Qed.

(** ** The claims *)

(** C1, as amended: for a line matching the declaration pattern, the
    expected prefixed line is [<indent>-webkit-backdrop-filter: <value>;];
    the insertion is skipped if and only if that expected line occurs as a
    substring of the immediately preceding original line (equality is one
    such case), and otherwise the expected line is inserted immediately
    before the current line; the first line has the empty string as its
    predecessor and always gets the insertion. *)
Theorem dedup_is_substring_test (pre : list pystr) prev line post indent value :
  re_match line = Some (indent, value) →
  patch_lines (pre ++ prev :: line :: post)
  = patch_lines (pre ++ [prev])
    ++ (if contains (webkit_line indent value) prev then [line]
        else [webkit_line indent value; line])
    ++ resume line post
  ∧ (contains (webkit_line indent value) prev = true
     ↔ ∃ a b, prev = a ++ webkit_line indent value ++ b)
  ∧ contains (webkit_line indent value) (webkit_line indent value) = true
  ∧ patch_lines (line :: post)
    = webkit_line indent value :: line :: resume line post.
Proof.
  intros Hm. split_and!.
  - rewrite patch_lines_after. unfold emitted. by rewrite Hm.
  - apply contains_spec.
  - apply contains_refl.
  - by apply patch_lines_first_match.
Qed.

Lemma dedup_is_substring_test_witness :
  re_match (str "  backdrop-filter: blur(5px);")
  = Some (str "  ", str "blur(5px)")
  ∧ patch_lines ([] ++ str "  -webkit-backdrop-filter: blur(5px); /* x */"
                  :: str "  backdrop-filter: blur(5px);" :: [])
    = patch_lines ([] ++ [str "  -webkit-backdrop-filter: blur(5px); /* x */"])
      ++ (if contains (webkit_line (str "  ") (str "blur(5px)"))
               (str "  -webkit-backdrop-filter: blur(5px); /* x */")
          then [str "  backdrop-filter: blur(5px);"]
          else [webkit_line (str "  ") (str "blur(5px)");
                str "  backdrop-filter: blur(5px);"])
      ++ resume (str "  backdrop-filter: blur(5px);") [].
Proof.
  split; [reflexivity|].
  apply (dedup_is_substring_test [] _ _ [] (str "  ") (str "blur(5px)")).
  reflexivity.
Defined.

(** C1, as stated, fails: the predecessor
    [  -webkit-backdrop-filter: blur(5px); /* x */] is not equal to the
    expected line, it only contains it, and yet nothing is inserted. *)
Lemma dedup_exact_equality_counterexample :
  re_match (str "  backdrop-filter: blur(5px);")
  = Some (str "  ", str "blur(5px)")
  ∧ str "  -webkit-backdrop-filter: blur(5px); /* x */"
    ≠ webkit_line (str "  ") (str "blur(5px)")
  ∧ patch_lines [str "  -webkit-backdrop-filter: blur(5px); /* x */";
                 str "  backdrop-filter: blur(5px);"]
    = [str "  -webkit-backdrop-filter: blur(5px); /* x */";
       str "  backdrop-filter: blur(5px);"]
  ∧ fix_backdrop_filter
      (str "  -webkit-backdrop-filter: blur(5px); /* x */" ++ NL
       :: str "  backdrop-filter: blur(5px);")
    = str "  -webkit-backdrop-filter: blur(5px); /* x */" ++ NL
      :: str "  backdrop-filter: blur(5px);".
Proof. split_and!; [reflexivity|by vm_compute|reflexivity|reflexivity]. Qed.

(** C2: the patch operation is idempotent: patching the patcher's own
    output gives that output back. *)
Theorem fix_backdrop_filter_idempotent s :
  fix_backdrop_filter (fix_backdrop_filter s) = fix_backdrop_filter s.
Proof.
  unfold fix_backdrop_filter at 1. rewrite split_fix_backdrop_filter.
  unfold fix_backdrop_filter. f_equal.
  rewrite !patch_lines_resume. apply resume_idempotent.
Qed.

(** C3: every input line is in the output, unmodified and in the same
    relative order (the input lines are a subsequence of the output
    lines), so the output has at least as many lines as the input. *)
Theorem fix_backdrop_filter_preserves_lines s :
  split s `sublist_of` split (fix_backdrop_filter s)
  ∧ (length (split s) ≤ length (split (fix_backdrop_filter s)))%nat.
Proof.
  rewrite split_fix_backdrop_filter, patch_lines_resume.
  pose proof (resume_sublist [] (split s)) as Hs.
  split; [done|]. by apply sublist_length.
Qed.

(** C4, as amended: a line made of a non-empty run of leading white
    space, [backdrop-filter:], white space and several newline-free
    declarations ending with a semicolon (for example
    [  backdrop-filter: blur(5px); color: red;]) does match the pattern
    and is a candidate like any declaration line: the captured value is
    everything between the white space after the colon and the final
    semicolon, and a prefixed line carrying that whole value is inserted
    immediately before the line, at any position in the text, unless the
    immediately preceding original line already holds that prefixed line
    (the first line always gets it); the line itself is left
    unmodified. *)
Theorem multi_declaration_line_matches
    (pre : list pystr) line indent ws d1 d2 post :
  line = indent ++ str "backdrop-filter:" ++ ws
         ++ (d1 ++ str ";" ++ d2) ++ str ";" →
  indent ≠ [] → all is_space indent → all is_space ws →
  stops is_space d1 → all is_dot d1 → all is_dot d2 →
  re_match line = Some (indent, d1 ++ str ";" ++ d2)
  ∧ patch_lines (pre ++ line :: post)
    = patch_lines pre
      ++ (if contains (webkit_line indent (d1 ++ str ";" ++ d2))
               (default [] (last pre))
          then [line]
          else [webkit_line indent (d1 ++ str ";" ++ d2); line])
      ++ resume line post
  ∧ patch_lines (line :: post)
    = webkit_line indent (d1 ++ str ";" ++ d2) :: line :: resume line post.
Proof.
  intros -> Hne Hind Hws Hstop Hd1 Hd2.
  assert (re_match (indent ++ str "backdrop-filter:" ++ ws
                    ++ (d1 ++ str ";" ++ d2) ++ str ";")
          = Some (indent, d1 ++ str ";" ++ d2)) as Hm.
  { apply re_match_complete; [done|done|done| |].
    - destruct d1; [done|]. done.
    - apply Forall_app. split; [done|].
      apply Forall_app. split; [|done]. by repeat constructor. }
  split_and!; [done| |by apply patch_lines_first_match].
  rewrite patch_lines_at. unfold emitted. by rewrite Hm.
Qed.

Lemma multi_declaration_line_matches_witness :
  (str "  backdrop-filter: blur(5px); color: red;"
   = str "  " ++ str "backdrop-filter:" ++ str " "
     ++ (str "blur(5px)" ++ str ";" ++ str " color: red") ++ str ";"
   ∧ str "  " ≠ [] ∧ all is_space (str "  ") ∧ all is_space (str " ")
   ∧ stops is_space (str "blur(5px)") ∧ all is_dot (str "blur(5px)")
   ∧ all is_dot (str " color: red"))
  ∧ re_match (str "  backdrop-filter: blur(5px); color: red;")
    = Some (str "  ", str "blur(5px)" ++ str ";" ++ str " color: red")
  ∧ patch_lines ([str ".a {"]
                 ++ str "  backdrop-filter: blur(5px); color: red;"
                 :: [str "}"])
    = patch_lines [str ".a {"]
      ++ (if contains
               (webkit_line (str "  ")
                  (str "blur(5px)" ++ str ";" ++ str " color: red"))
               (default [] (last [str ".a {"]))
          then [str "  backdrop-filter: blur(5px); color: red;"]
          else [webkit_line (str "  ")
                  (str "blur(5px)" ++ str ";" ++ str " color: red");
                str "  backdrop-filter: blur(5px); color: red;"])
      ++ resume (str "  backdrop-filter: blur(5px); color: red;") [str "}"]
  ∧ patch_lines (str "  backdrop-filter: blur(5px); color: red;"
                 :: [str "}"])
    = webkit_line (str "  ")
        (str "blur(5px)" ++ str ";" ++ str " color: red")
      :: str "  backdrop-filter: blur(5px); color: red;"
      :: resume (str "  backdrop-filter: blur(5px); color: red;") [str "}"].
Proof.
  assert (str "  backdrop-filter: blur(5px); color: red;"
          = str "  " ++ str "backdrop-filter:" ++ str " "
            ++ (str "blur(5px)" ++ str ";" ++ str " color: red") ++ str ";"
          ∧ str "  " ≠ [] ∧ all is_space (str "  ") ∧ all is_space (str " ")
          ∧ stops is_space (str "blur(5px)") ∧ all is_dot (str "blur(5px)")
          ∧ all is_dot (str " color: red")) as H.
  { split_and!; [reflexivity|discriminate| | |reflexivity| |];
      repeat constructor. }
  split; [exact H|].
  destruct H as (H0 & H1 & H2 & H3 & H4 & H5 & H6).
  exact (multi_declaration_line_matches
           [str ".a {"] (str "  backdrop-filter: blur(5px); color: red;")
           (str "  ") (str " ") (str "blur(5px)") (str " color: red")
           [str "}"] H0 H1 H2 H3 H4 H5 H6).
Defined.

(** C4, as stated, fails: the line
    [  backdrop-filter: blur(5px); color: red;] matches the pattern and a
    prefixed line is inserted before it. *)
Lemma multi_declaration_line_counterexample :
  re_match (str "  backdrop-filter: blur(5px); color: red;")
  = Some (str "  ", str "blur(5px); color: red")
  ∧ fix_backdrop_filter (str "  backdrop-filter: blur(5px); color: red;")
    = str "  -webkit-backdrop-filter: blur(5px); color: red;" ++ NL
      :: str "  backdrop-filter: blur(5px); color: red;".
Proof. split; reflexivity. Qed.

(** C5: for every matched line that gets an insertion, the inserted line
    is [<indent>-webkit-backdrop-filter: <value>;] built from the groups
    of that line, and it is placed immediately before the line; for indent
    [    ] and value [blur(10px)] it is
    [    -webkit-backdrop-filter: blur(10px);], and the single line
    [  backdrop-filter: blur(5px);] gives the prefixed line followed by
    the line. *)
Theorem prefix_construction (pre : list pystr) line post indent value :
  re_match line = Some (indent, value) →
  contains (webkit_line indent value) (default [] (last pre)) = false →
  patch_lines (pre ++ line :: post)
  = patch_lines pre ++ webkit_line indent value :: line :: resume line post
  ∧ webkit_line indent value
    = indent ++ str "-webkit-backdrop-filter: " ++ value ++ str ";"
  ∧ re_match (str "    backdrop-filter: blur(10px);")
    = Some (str "    ", str "blur(10px)")
  ∧ webkit_line (str "    ") (str "blur(10px)")
    = str "    -webkit-backdrop-filter: blur(10px);"
  ∧ fix_backdrop_filter (str "  backdrop-filter: blur(5px);")
    = str "  -webkit-backdrop-filter: blur(5px);" ++ NL
      :: str "  backdrop-filter: blur(5px);".
Proof.
  intros Hm Hc. split_and!; try reflexivity.
  rewrite patch_lines_at. unfold emitted. by rewrite Hm, Hc.
Qed.

Lemma prefix_construction_witness :
  re_match (str "    backdrop-filter: blur(10px);")
  = Some (str "    ", str "blur(10px)")
  ∧ contains (webkit_line (str "    ") (str "blur(10px)"))
      (default [] (last [str ".glass {"])) = false
  ∧ patch_lines ([str ".glass {"] ++ str "    backdrop-filter: blur(10px);"
                  :: [str "}"])
    = patch_lines [str ".glass {"]
      ++ webkit_line (str "    ") (str "blur(10px)")
      :: str "    backdrop-filter: blur(10px);"
      :: resume (str "    backdrop-filter: blur(10px);") [str "}"].
Proof.
  split; [reflexivity|]. split; [reflexivity|].
  apply (prefix_construction [str ".glass {"]
           (str "    backdrop-filter: blur(10px);") [str "}"]
           (str "    ") (str "blur(10px)")); reflexivity.
Defined.

(** C7: a line that does not match the declaration pattern (such as
    [color: red;] or [backdrop-filter /* comment */: blur(4px);]) is
    emitted unchanged and triggers no insertion: its iteration appends
    the line and nothing else. *)
Theorem non_matching_line_passes_through (pre : list pystr) line post :
  re_match line = None →
  patch_lines (pre ++ line :: post)
  = patch_lines pre ++ line :: resume line post
  ∧ (∀ lines modified_lines i,
       loop_body lines modified_lines (i, line) = modified_lines ++ [line])
  ∧ re_match (str "color: red;") = None
  ∧ re_match (str "backdrop-filter /* comment */: blur(4px);") = None
  ∧ fix_backdrop_filter (str "color: red;") = str "color: red;"
  ∧ fix_backdrop_filter (str "backdrop-filter /* comment */: blur(4px);")
    = str "backdrop-filter /* comment */: blur(4px);".
Proof.
  intros Hm. split_and!; try reflexivity.
  - by rewrite patch_lines_at, emitted_no_match.
  - intros lines acc i. by rewrite loop_body_emitted, emitted_no_match.
Qed.

Lemma non_matching_line_passes_through_witness :
  re_match (str "color: red;") = None
  ∧ patch_lines ([str "a {"] ++ str "color: red;" :: [str "}"])
    = patch_lines [str "a {"]
      ++ str "color: red;" :: resume (str "color: red;") [str "}"].
Proof.
  split; [reflexivity|].
  apply (non_matching_line_passes_through
           [str "a {"] (str "color: red;") [str "}"]).
  reflexivity.
Defined.

(** C8: for the stale prefix [  -webkit-backdrop-filter: blur(3px);]
    followed by [  backdrop-filter: blur(5px);], the line
    [  -webkit-backdrop-filter: blur(5px);] is inserted before the
    declaration; the output has exactly three lines and the stale prefix
    line stays first, unmodified. *)
Theorem stale_prefix_gets_new_prefix :
  fix_backdrop_filter
    (str "  -webkit-backdrop-filter: blur(3px);" ++ NL
     :: str "  backdrop-filter: blur(5px);")
  = str "  -webkit-backdrop-filter: blur(3px);" ++ NL
    :: str "  -webkit-backdrop-filter: blur(5px);" ++ NL
    :: str "  backdrop-filter: blur(5px);"
  ∧ split (fix_backdrop_filter
             (str "  -webkit-backdrop-filter: blur(3px);" ++ NL
              :: str "  backdrop-filter: blur(5px);"))
    = [str "  -webkit-backdrop-filter: blur(3px);";
       str "  -webkit-backdrop-filter: blur(5px);";
       str "  backdrop-filter: blur(5px);"].
Proof. split; reflexivity. Qed.

(** C9: a [backdrop-filter:] declaration at column zero never matches,
    since the pattern needs at least one leading white-space character
    (no line starting with another character matches); the line passes
    through unchanged and gets no prefixed line. *)
Theorem column_zero_declaration_passes_through rest (pre post : list pystr) :
  re_match (str "backdrop-filter:" ++ rest) = None
  ∧ (∀ line, stops is_space line → re_match line = None)
  ∧ patch_lines (pre ++ (str "backdrop-filter:" ++ rest) :: post)
    = patch_lines pre ++ (str "backdrop-filter:" ++ rest)
      :: resume (str "backdrop-filter:" ++ rest) post
  ∧ fix_backdrop_filter (str "backdrop-filter: blur(5px);")
    = str "backdrop-filter: blur(5px);".
Proof.
  assert (re_match (str "backdrop-filter:" ++ rest) = None) as Hm.
  { by apply re_match_stops. }
  split_and!; [done|apply re_match_stops| |reflexivity].
  by rewrite patch_lines_at, emitted_no_match.
Qed.

(** C10: a line that ends with a carriage return never matches, since the
    pattern needs the semicolon to be the last character of the line; the
    line passes through unchanged and gets no prefixed line, as in a
    CRLF-terminated file. *)
Theorem carriage_return_line_passes_through body (pre post : list pystr) :
  re_match (body ++ [CR]) = None
  ∧ patch_lines (pre ++ (body ++ [CR]) :: post)
    = patch_lines pre ++ (body ++ [CR]) :: resume (body ++ [CR]) post
  ∧ fix_backdrop_filter
      (str ".a {" ++ CR :: NL :: str "  backdrop-filter: blur(5px);"
       ++ CR :: NL :: str "}" ++ [CR; NL])
    = str ".a {" ++ CR :: NL :: str "  backdrop-filter: blur(5px);"
      ++ CR :: NL :: str "}" ++ [CR; NL].
Proof.
  assert (re_match (body ++ [CR]) = None) as Hm.
  { destruct (re_match (body ++ [CR])) as [[indent value]|] eqn:H; [|done].
    apply re_match_last in H as [b [H|H]].
    - by apply app_inj_tail in H as [_ ?].
    - change (b ++ [59; NL]) with (b ++ [59] ++ [NL]) in H.
      rewrite app_assoc in H. by apply app_inj_tail in H as [_ ?]. }
  split_and!; [done| |reflexivity].
  by rewrite patch_lines_at, emitted_no_match.
Qed.

Section DriverFacts.
Context {World : Type}.
Variable read_file : pystr → World → World * (Exception + pystr).
Variable write_file : pystr → pystr → World → World * (Exception + unit).
Variable write_stdout : pystr → World → list pystr → option Exception.

End DriverFacts.


(** The driver on the small file system: a missing file gives the error
    notice, a present one is patched in place; the exit status is 0 both
    times. *)
Example run_script_missing_file :
  run_script _ demo_read demo_write demo_stdout_utf8 None
  = ({| world := None;
        stdout := [error_notice
                     {| exc_str := str "[Errno 2] No such file or directory" |}] |},
     0%nat).
Proof. reflexivity. Qed.

Example run_script_patches_file :
  run_script _ demo_read demo_write demo_stdout_utf8 (Some (str "  backdrop-filter: blur(5px);"))
  = ({| world := Some (str "  -webkit-backdrop-filter: blur(5px);" ++ NL
                       :: str "  backdrop-filter: blur(5px);");
        stdout := [success_notice] |},
     0%nat).
Proof. reflexivity. Qed.

(** With a standard output in the ASCII encoding the file is still
    patched in place, but neither notice can be printed: the exception of
    the second print leaves [main]. *)
Example run_script_ascii_stdout :
  run_script _ demo_read demo_write demo_stdout_ascii
    (Some (str "  backdrop-filter: blur(5px);"))
  = ({| world := Some (str "  -webkit-backdrop-filter: blur(5px);" ++ NL
                       :: str "  backdrop-filter: blur(5px);");
        stdout := [] |},
     1%nat).
Proof. reflexivity. Qed.

(** ** Further properties of the pattern *)

(** Any text is a run of [p]-characters followed by a text at which the
    run stops. *)
Lemma span_run (p : char → bool) (v : pystr) :
  ∃ a b, v = a ++ b ∧ all p a ∧ stops p b.
Proof.
  induction v as [|c v (a & b & -> & Ha & Hb)].
  - exists [], []. split_and!; [done|constructor|done].
  - destruct (p c) eqn:Hc.
    + exists (c :: a), b. split_and!; [done|by constructor|done].
    + exists [], (c :: a ++ b). split_and!; [done|constructor|done].
Qed.

Lemma all_no_newline_is_dot v : no_newline v → all is_dot v.
Proof.
  unfold no_newline, all. induction v as [|c v IH]; intros Hv; [constructor|].
  apply not_elem_of_cons in Hv as [Hc Hv]. constructor; [|by apply IH].
  unfold is_dot. by destruct (N.eqb_spec c NL).
Qed.

(** The value group never starts with white space: the greedy [\s*]
    before it has taken it all. *)
Lemma re_match_value_stops line indent value :
  re_match line = Some (indent, value) → no_newline line →
  ∃ ws,
    line = indent ++ str "backdrop-filter:" ++ ws ++ value ++ str ";"
    ∧ indent ≠ [] ∧ all is_space indent ∧ all is_space ws
    ∧ stops is_space value.
Proof.
  intros Hm Hnl.
  destruct (re_match_Some _ _ _ Hm) as (ws & tail & Hline & Hne & Hind & Hws & Hv & Ht).
  destruct Ht as [->| ->].
  2:{ exfalso. apply Hnl. rewrite Hline, !elem_of_app.
      do 5 right. by apply list_elem_of_singleton. }
  rewrite app_nil_r in Hline.
  destruct (span_run is_space value) as (a & b & Hval & Ha & Hb).
  assert (all is_dot b) as Hdb.
  { rewrite Hval in Hv. by apply Forall_app in Hv as [_ ?]. }
  assert (all is_space (ws ++ a)) as Hwsa by (by apply Forall_app).
  pose proof (re_match_complete indent (ws ++ a) b Hne Hind Hwsa Hb Hdb) as Hc.
  rewrite <- app_assoc in Hc.
  assert (line = indent ++ str "backdrop-filter:" ++ ws ++ a ++ b ++ str ";")
    as Hline'.
  { rewrite Hline, Hval. by rewrite <- !app_assoc. }
  rewrite <- Hline', Hm in Hc. injection Hc as Hvb.
  assert (a = []) as Ha0.
  { rewrite Hval in Hvb. apply (f_equal length) in Hvb.
    rewrite length_app in Hvb. destruct a; [done|]. cbn in Hvb. lia. }
  subst a. cbn in Hval. subst b. by exists ws.
Qed.

(** ** Further properties of the loop *)

(** In what the loop produces, every declaration line follows a line
    holding its prefixed line. *)
Lemma resume_prefixed prev rest : prefixed prev (resume prev rest).
Proof.
  revert prev. induction rest as [|l rest IH]; intros prev; [done|].
  cbn [resume]. unfold emitted.
  destruct (re_match l) as [[indent value]|] eqn:Hm.
  - destruct (contains (webkit_line indent value) prev) eqn:Hc; cbn.
    + split; [|apply IH]. intros i v Hiv. by simplify_eq.
    + apply re_match_Some in Hm as Hshape.
      destruct Hshape as (ws & tail & _ & _ & Hind & _).
      split_and!; [| |apply IH].
      * intros i v Hiv. by rewrite re_match_webkit_line in Hiv.
      * intros i v Hiv. rewrite Hm in Hiv. simplify_eq. apply contains_refl.
  - cbn. split; [|apply IH]. intros i v Hiv. by rewrite Hm in Hiv.
Qed.

(** Lines that are already prefixed are left as they are. *)
Lemma prefixed_resume prev ls : prefixed prev ls → resume prev ls = ls.
Proof.
  revert prev. induction ls as [|l ls IH]; intros prev; [done|].
  cbn [prefixed resume]. intros [Hl Hls]. rewrite (IH _ Hls).
  unfold emitted. destruct (re_match l) as [[indent value]|]; [|done].
  by rewrite (Hl indent value eq_refl).
Qed.

Lemma prefixed_lookup prev out i p line indent value :
  prefixed prev out →
  out !! i = Some p → out !! S i = Some line →
  re_match line = Some (indent, value) →
  contains (webkit_line indent value) p = true.
Proof.
  revert prev i. induction out as [|l out IH]; intros prev i; [done|].
  cbn [prefixed]. intros [_ Hout] Hp Hline Hm.
  destruct i as [|i]; cbn in Hp, Hline.
  - simplify_eq. destruct out as [|l' out]; [done|].
    cbn in Hline, Hout. simplify_eq. destruct Hout as [Hl' _]. by apply Hl'.
  - by apply (IH l i).
Qed.

(** Nothing but input lines and prefixed lines of declaration lines is
    produced. *)
Lemma resume_elem prev rest l :
  l ∈ resume prev rest →
  l ∈ rest ∨
  ∃ line indent value,
    line ∈ rest ∧ re_match line = Some (indent, value)
    ∧ l = webkit_line indent value.
Proof.
  revert prev. induction rest as [|x rest IH]; intros prev; cbn [resume].
  - by intros ?%elem_of_nil.
  - rewrite elem_of_app. intros [Hl|Hl].
    + destruct (emitted_cases prev x) as [He|(ind & v & Hm & _ & He)];
        rewrite He in Hl.
      * apply list_elem_of_singleton in Hl as ->. left. by left.
      * apply elem_of_cons in Hl as [->|Hl].
        -- right. exists x, ind, v. split_and!; [by left|done|done].
        -- apply list_elem_of_singleton in Hl as ->. left. by left.
    + destruct (IH _ Hl) as [?|(line & ind & v & ? & ? & ?)].
      * left. by right.
      * right. exists line, ind, v. split_and!; [by right|done|done].
Qed.

(** At most one line is added per declaration line. *)
Lemma resume_length prev rest :
  (length (resume prev rest)
   ≤ length rest + length (List.filter is_match rest))%nat.
Proof.
  revert prev. induction rest as [|x rest IH]; intros prev; [done|].
  cbn [resume List.filter]. rewrite length_app. specialize (IH x).
  replace (is_match x)
    with (match re_match x with Some _ => true | None => false end) by done.
  unfold emitted.
  destruct (re_match x) as [[ind v]|]; [destruct (contains _ _)|]; cbn; lia.
Qed.

(** ** Further properties of split and join *)

Lemma split_app_newline a b : split (a ++ NL :: b) = split a ++ split b.
Proof.
  induction a as [|c a IH]; [done|]. cbn [app split]. rewrite IH.
  destruct (c =? NL); [done|].
  pose proof (split_nonempty a). by destruct (split a).
Qed.

Lemma join_app xs ys :
  xs ≠ [] → ys ≠ [] → join (xs ++ ys) = join xs ++ NL :: join ys.
Proof.
  intros Hx Hy. induction xs as [|x xs IH]; [done|].
  destruct xs as [|x' xs].
  - destruct ys; [done|]. done.
  - cbn [app]. rewrite !join_cons. cbn [app] in IH.
    rewrite IH by done. by rewrite <- app_assoc.
Qed.

(** A line that is no declaration cuts the loop in two: what comes after
    it does not depend on what came before. *)
Lemma patch_lines_cut (xs : list pystr) l ys :
  re_match l = None →
  patch_lines (xs ++ l :: ys) = patch_lines xs ++ patch_lines (l :: ys).
Proof.
  intros Hm. rewrite patch_lines_at.
  rewrite (patch_lines_at [] l ys : patch_lines (l :: ys) = _).
  by rewrite !emitted_no_match.
Qed.

Lemma fix_backdrop_filter_cut a b :
  re_match (default [] (head (split b))) = None →
  fix_backdrop_filter (a ++ NL :: b)
  = fix_backdrop_filter a ++ NL :: fix_backdrop_filter b.
Proof.
  intros Hm. unfold fix_backdrop_filter. rewrite split_app_newline.
  pose proof (split_nonempty b) as Hb.
  destruct (split b) as [|l ys] eqn:Hsb; [done|]. cbn in Hm.
  rewrite patch_lines_cut by done.
  apply join_app.
  - rewrite patch_lines_resume. apply resume_nonempty, split_nonempty.
  - rewrite patch_lines_resume. by apply resume_nonempty.
Qed.

(** ** Further properties of the patcher *)

(** X1: on a line without newline, as every line of a split text is, the
    pattern matches exactly the texts made of a non-empty run of white
    space, [backdrop-filter:], a run of white space, a value that does not
    start with white space, and a final semicolon; the groups are that
    first run and that value. *)
Theorem declaration_pattern_shape line indent value :
  no_newline line →
  (re_match line = Some (indent, value)
   ↔ ∃ ws,
       line = indent ++ str "backdrop-filter:" ++ ws ++ value ++ str ";"
       ∧ indent ≠ [] ∧ all is_space indent ∧ all is_space ws
       ∧ stops is_space value).
Proof.
  intros Hnl. split.
  - intros Hm. by apply re_match_value_stops.
  - intros (ws & -> & Hne & Hind & Hws & Hstop).
    apply re_match_complete; [done..|].
    apply all_no_newline_is_dot. unfold no_newline in *.
    rewrite !elem_of_app in Hnl. tauto.
Qed.

Lemma declaration_pattern_shape_witness :
  no_newline (str "  backdrop-filter:  blur(5px);")
  ∧ (re_match (str "  backdrop-filter:  blur(5px);")
     = Some (str "  ", str "blur(5px)")
     ↔ ∃ ws,
         str "  backdrop-filter:  blur(5px);"
         = str "  " ++ str "backdrop-filter:" ++ ws ++ str "blur(5px)"
           ++ str ";"
         ∧ str "  " ≠ [] ∧ all is_space (str "  ") ∧ all is_space ws
         ∧ stops is_space (str "blur(5px)")).
Proof.
  assert (no_newline (str "  backdrop-filter:  blur(5px);")) as H.
  { by apply no_newline_check. }
  split; [exact H|].
  exact (declaration_pattern_shape _ (str "  ") (str "blur(5px)") H).
Defined.

(** X2: a line whose first character after its leading white space is not [b]
    is no declaration line; so a line that already starts with the
    [-webkit-backdrop-filter:] property never gets a prefixed line of its
    own. *)
Theorem prefixed_property_is_no_declaration indent :
  all is_space indent →
  (∀ c rest,
     is_space c = false → c ≠ 98 → re_match (indent ++ c :: rest) = None)
  ∧ (∀ rest,
       re_match (indent ++ str "-webkit-backdrop-filter:" ++ rest) = None).
Proof.
  intros Hind. split.
  - intros c rest Hc Hb. by apply re_match_other_head.
  - intros rest.
    change (str "-webkit-backdrop-filter:")
      with (45 :: str "webkit-backdrop-filter:").
    cbn [app]. by apply re_match_other_head.
Qed.

Lemma prefixed_property_is_no_declaration_witness :
  all is_space (str "  ")
  ∧ re_match (str "  " ++ str "-webkit-backdrop-filter:" ++ str " blur(5px);")
    = None.
Proof.
  assert (all is_space (str "  ")) as H by (repeat constructor).
  split; [exact H|].
  exact (proj2 (prefixed_property_is_no_declaration (str "  ") H)
           (str " blur(5px);")).
Defined.

(** X3: a text none of whose lines is a declaration line comes back unchanged,
    character for character. *)
Theorem text_without_declarations_is_unchanged s :
  Forall (λ line, re_match line = None) (split s) →
  fix_backdrop_filter s = s.
Proof.
  intros Hall. unfold fix_backdrop_filter.
  rewrite patch_lines_resume, prefixed_resume; [apply join_split|].
  generalize (@nil char).
  induction Hall as [|l ls Hl Hall IH]; intros prev; [done|].
  split; [|apply IH]. intros i v Hiv. by rewrite Hl in Hiv.
Qed.

Lemma text_without_declarations_is_unchanged_witness :
  Forall (λ line, re_match line = None)
    (split (str ".a {" ++ NL :: str "  color: red;" ++ NL :: str "}"))
  ∧ fix_backdrop_filter (str ".a {" ++ NL :: str "  color: red;" ++ NL :: str "}")
    = str ".a {" ++ NL :: str "  color: red;" ++ NL :: str "}".
Proof.
  assert (Forall (λ line, re_match line = None)
            (split (str ".a {" ++ NL :: str "  color: red;" ++ NL :: str "}")))
    as H.
  { change (split (str ".a {" ++ NL :: str "  color: red;" ++ NL :: str "}"))
      with [str ".a {"; str "  color: red;"; str "}"].
    repeat constructor. }
  split; [exact H|].
  exact (text_without_declarations_is_unchanged _ H).
Defined.

(** X4: the patcher leaves a text unchanged exactly when each of its
    declaration lines already comes right after a line that holds its
    prefixed line; in particular the first line is then no declaration
    line. *)
Theorem unchanged_iff_already_prefixed s :
  fix_backdrop_filter s = s ↔ prefixed [] (split s).
Proof.
  split.
  - intros Hfix. apply (f_equal split) in Hfix.
    rewrite split_fix_backdrop_filter, patch_lines_resume in Hfix.
    rewrite <- Hfix. apply resume_prefixed.
  - intros Hp. unfold fix_backdrop_filter.
    rewrite patch_lines_resume, prefixed_resume by done. apply join_split.
Qed.

(** X5: every line of the output is a line of the input, or the prefixed line
    built from the groups of a declaration line of the input: the patcher
    writes nothing else. *)
Theorem output_lines_come_from_input s l :
  l ∈ split (fix_backdrop_filter s) →
  l ∈ split s ∨
  ∃ line indent value,
    line ∈ split s ∧ re_match line = Some (indent, value)
    ∧ l = webkit_line indent value.
Proof.
  rewrite split_fix_backdrop_filter, patch_lines_resume. apply resume_elem.
Qed.

Lemma output_lines_come_from_input_witness :
  str "  -webkit-backdrop-filter: blur(5px);"
  ∈ split (fix_backdrop_filter
             (str ".a {" ++ NL :: str "  backdrop-filter: blur(5px);"))
  ∧ (str "  -webkit-backdrop-filter: blur(5px);"
     ∈ split (str ".a {" ++ NL :: str "  backdrop-filter: blur(5px);")
     ∨ ∃ line indent value,
         line ∈ split (str ".a {" ++ NL :: str "  backdrop-filter: blur(5px);")
         ∧ re_match line = Some (indent, value)
         ∧ str "  -webkit-backdrop-filter: blur(5px);"
           = webkit_line indent value).
Proof.
  assert (str "  -webkit-backdrop-filter: blur(5px);"
          ∈ split (fix_backdrop_filter
                     (str ".a {" ++ NL :: str "  backdrop-filter: blur(5px);")))
    as H.
  { apply (list_elem_of_lookup_2 _ 1%nat). reflexivity. }
  split; [exact H|].
  exact (output_lines_come_from_input _ _ H).
Defined.

(** X6: the output has at most one line more per declaration line of the
    input, hence at most twice as many lines as the input. *)
Theorem output_line_count_bound s :
  (length (split (fix_backdrop_filter s))
   ≤ length (split s) + length (List.filter is_match (split s)))%nat
  ∧ (length (split (fix_backdrop_filter s)) ≤ 2 * length (split s))%nat.
Proof.
  rewrite split_fix_backdrop_filter, patch_lines_resume.
  pose proof (resume_length [] (split s)).
  pose proof (List.filter_length_le is_match (split s)).
  split; lia.
Qed.

(** X7: in the output, every declaration line comes right after a line that
    holds its prefixed line as a substring; the first line of the output
    is never a declaration line. *)
Theorem output_declarations_are_prefixed s i line indent value :
  split (fix_backdrop_filter s) !! i = Some line →
  re_match line = Some (indent, value) →
  ∃ j prev,
    i = S j ∧ split (fix_backdrop_filter s) !! j = Some prev
    ∧ contains (webkit_line indent value) prev = true.
Proof.
  rewrite split_fix_backdrop_filter, patch_lines_resume.
  pose proof (resume_prefixed [] (split s)) as Hp.
  intros Hi Hm. destruct i as [|j].
  - destruct (resume [] (split s)) as [|l out]; [done|].
    cbn in Hi, Hp. simplify_eq. destruct Hp as [Hl _].
    specialize (Hl _ _ Hm).
    by pose proof (eq_trans (eq_sym Hl) (contains_webkit_line_nil indent value)).
  - assert (is_Some (resume [] (split s) !! j)) as [prev Hprev].
    { apply lookup_lt_is_Some_2. apply lookup_lt_Some in Hi. lia. }
    exists j, prev. split_and!; [done|done|].
    by eapply prefixed_lookup.
Qed.

Lemma output_declarations_are_prefixed_witness :
  split (fix_backdrop_filter (str "  backdrop-filter:blur(5px);")) !! 1%nat
  = Some (str "  backdrop-filter:blur(5px);")
  ∧ re_match (str "  backdrop-filter:blur(5px);")
    = Some (str "  ", str "blur(5px)")
  ∧ ∃ j prev,
      1%nat = S j
      ∧ split (fix_backdrop_filter (str "  backdrop-filter:blur(5px);")) !! j
        = Some prev
      ∧ contains (webkit_line (str "  ") (str "blur(5px)")) prev = true.
Proof.
  split; [reflexivity|]. split; [reflexivity|].
  apply (output_declarations_are_prefixed
           (str "  backdrop-filter:blur(5px);") 1
           (str "  backdrop-filter:blur(5px);")); reflexivity.
Defined.

(** X8: patching is local: where the text is cut at a newline after which the
    next line is no declaration line, patching the whole text is patching
    the two parts on their own. *)
Theorem patching_is_local a b :
  re_match (default [] (head (split b))) = None →
  fix_backdrop_filter (a ++ NL :: b)
  = fix_backdrop_filter a ++ NL :: fix_backdrop_filter b.
Proof. apply fix_backdrop_filter_cut. Qed.

Lemma patching_is_local_witness :
  re_match (default [] (head (split (str "}")))) = None
  ∧ fix_backdrop_filter (str "  backdrop-filter: blur(5px);" ++ NL :: str "}")
    = fix_backdrop_filter (str "  backdrop-filter: blur(5px);")
      ++ NL :: fix_backdrop_filter (str "}").
Proof.
  split; [reflexivity|].
  apply (patching_is_local (str "  backdrop-filter: blur(5px);") (str "}")).
  reflexivity.
Defined.

(** X9: a final newline of the text is kept: the text before it is patched
    and the newline stays last. *)
Theorem trailing_newline_is_kept s :
  fix_backdrop_filter (s ++ [NL]) = fix_backdrop_filter s ++ [NL].
Proof. by rewrite fix_backdrop_filter_cut. Qed.

Section DriverFurtherFacts.
Context {World : Type}.
Variable read_file : pystr → World → World * (Exception + pystr).
Variable write_file : pystr → pystr → World → World * (Exception + unit).
Variable write_stdout : pystr → World → list pystr → option Exception.

(** X10: when the read fails, no write is attempted: the file system is left
    as the failed read left it.  When the read succeeds, the one write
    made is of the patched text to the same path, whether it succeeds or
    fails. *)
Theorem main_writes_only_the_patched_text (w : World) :
  match read_file css_file w with
  | (w1, inl _) =>
      world (run_script World read_file write_file write_stdout w).1 = w1
  | (w1, inr css_content) =>
      world (run_script World read_file write_file write_stdout w).1
      = (write_file css_file (fix_backdrop_filter css_content) w1).1
  end.
Proof.
  unfold run_script, main, try_except, bind, read, write, print. cbn.
  destruct (read_file css_file w) as [w1 [e|css]]; cbn.
  { by destruct (write_stdout _ _ _). }
  destruct (write_file css_file (fix_backdrop_filter css) w1)
    as [w2 [e|[]]]; cbn.
  { by destruct (write_stdout _ _ _). }
  destruct (write_stdout _ w2 []) as [e|]; cbn; [|done].
  by destruct (write_stdout _ _ _).
Qed.

(** X11: run on a file that holds a text the patcher produced, the script
    writes back exactly the text it read. *)
Theorem main_rewrites_patched_file_as_is (w w1 : World) css_content :
  read_file css_file w = (w1, inr (fix_backdrop_filter css_content)) →
  world (run_script World read_file write_file write_stdout w).1
  = (write_file css_file (fix_backdrop_filter css_content) w1).1.
Proof.
  intros Hr.
  unfold run_script, main, try_except, bind, read, write, print. cbn.
  rewrite Hr. cbn.
  assert (fix_backdrop_filter (fix_backdrop_filter css_content)
          = fix_backdrop_filter css_content) as ->.
  { unfold fix_backdrop_filter at 1. rewrite split_fix_backdrop_filter.
    unfold fix_backdrop_filter.
    by rewrite !patch_lines_resume, resume_idempotent. }
  destruct (write_file css_file (fix_backdrop_filter css_content) w1)
    as [w2 [e|[]]]; cbn.
  { by destruct (write_stdout _ _ _). }
  destruct (write_stdout _ w2 []) as [e|]; cbn; [|done].
  by destruct (write_stdout _ _ _).
Qed.
End DriverFurtherFacts.

Lemma main_rewrites_patched_file_as_is_witness :
  demo_read css_file
    (Some (fix_backdrop_filter (str "  backdrop-filter: blur(5px);")))
  = (Some (fix_backdrop_filter (str "  backdrop-filter: blur(5px);")),
     inr (fix_backdrop_filter (str "  backdrop-filter: blur(5px);")))
  ∧ world (run_script _ demo_read demo_write demo_stdout_utf8
             (Some (fix_backdrop_filter (str "  backdrop-filter: blur(5px);")))).1
    = (demo_write css_file
         (fix_backdrop_filter (str "  backdrop-filter: blur(5px);"))
         (Some (fix_backdrop_filter (str "  backdrop-filter: blur(5px);")))).1.
Proof.
  split; [reflexivity|].
  apply (main_rewrites_patched_file_as_is demo_read demo_write demo_stdout_utf8
           (Some (fix_backdrop_filter (str "  backdrop-filter: blur(5px);")))
           (Some (fix_backdrop_filter (str "  backdrop-filter: blur(5px);")))
           (str "  backdrop-filter: blur(5px);")).
  reflexivity.
Defined.

(** ** The hyphens of a line

    A prefixed line holds two hyphens more than the declaration line it
    is built from, so it never occurs inside that line. *)

Lemma contains_count_occ needle hay c :
  contains needle hay = true →
  (count_occ N.eq_dec needle c ≤ count_occ N.eq_dec hay c)%nat.
Proof.
  intros (a & b & ->)%contains_spec. rewrite !count_occ_app.
  unfold pystr, char in *. lia.
Qed.

Lemma count_occ_white_space ws :
  all is_space ws → count_occ N.eq_dec ws 45 = 0%nat.
Proof.
  induction 1 as [|c ws Hc Hws IH]; [done|]. cbn [count_occ].
  destruct (N.eq_dec c 45) as [->|_]; [done|exact IH].
Qed.

Lemma declaration_lacks_its_prefixed_line line indent value :
  re_match line = Some (indent, value) →
  contains (webkit_line indent value) line = false.
Proof.
  intros Hm. destruct (contains _ _) eqn:Hc; [|done].
  apply (contains_count_occ _ _ 45) in Hc.
  apply re_match_Some in Hm as (ws & tail & -> & _ & Hind & Hws & _ & Ht).
  unfold webkit_line in Hc. rewrite !count_occ_app in Hc.
  pose proof (count_occ_white_space _ Hind) as Hi.
  pose proof (count_occ_white_space _ Hws) as Hw.
  assert (count_occ N.eq_dec tail 45 = 0%nat) as Htail
    by (by destruct Ht as [->| ->]).
  assert (count_occ N.eq_dec (str "-webkit-backdrop-filter: ") 45 = 3%nat)
    as Hprefixed by reflexivity.
  assert (count_occ N.eq_dec (str "backdrop-filter:") 45 = 1%nat)
    as Hplain by reflexivity.
  assert (count_occ N.eq_dec (str ";") 45 = 0%nat) as Hsemi by reflexivity.
  unfold pystr, char in *. lia.
Qed.

(** X12: the look-back reads the original lines, not the lines already
    produced: a declaration line that directly repeats the line before it
    gets a prefixed line of its own, although one was just inserted for
    the line before. *)
Theorem repeated_declaration_is_prefixed_again
    (pre : list pystr) line post indent value :
  re_match line = Some (indent, value) →
  patch_lines (pre ++ line :: line :: post)
  = patch_lines (pre ++ [line])
    ++ webkit_line indent value :: line :: resume line post.
Proof.
  intros Hm. rewrite patch_lines_after. unfold emitted.
  by rewrite Hm, declaration_lacks_its_prefixed_line.
Qed.

Lemma repeated_declaration_is_prefixed_again_witness :
  re_match (str "  backdrop-filter: blur(5px);")
  = Some (str "  ", str "blur(5px)")
  ∧ patch_lines ([] ++ str "  backdrop-filter: blur(5px);"
                  :: str "  backdrop-filter: blur(5px);" :: [])
    = patch_lines ([] ++ [str "  backdrop-filter: blur(5px);"])
      ++ webkit_line (str "  ") (str "blur(5px)")
      :: str "  backdrop-filter: blur(5px);"
      :: resume (str "  backdrop-filter: blur(5px);") [].
Proof.
  split; [reflexivity|].
  apply (repeated_declaration_is_prefixed_again []
           (str "  backdrop-filter: blur(5px);") []
           (str "  ") (str "blur(5px)")).
  reflexivity.
Defined.

(** X13: a line whose last character is neither the semicolon nor a newline
    (a missing semicolon, a trailing comment, trailing white space) is no
    declaration line: it passes through and gets no prefixed line. *)
Theorem line_not_ending_in_semicolon_passes_through
    body c (pre post : list pystr) :
  c ≠ 59 → c ≠ NL →
  re_match (body ++ [c]) = None
  ∧ patch_lines (pre ++ (body ++ [c]) :: post)
    = patch_lines pre ++ (body ++ [c]) :: resume (body ++ [c]) post.
Proof.
  intros Hsemi Hnl.
  assert (re_match (body ++ [c]) = None) as Hm.
  { destruct (re_match (body ++ [c])) as [[indent value]|] eqn:H; [|done].
    apply re_match_last in H as [b [H|H]].
    - by apply app_inj_tail in H as [_ ?].
    - change (b ++ [59; NL]) with (b ++ [59] ++ [NL]) in H.
      rewrite app_assoc in H. by apply app_inj_tail in H as [_ ?]. }
  split; [done|]. by rewrite patch_lines_at, emitted_no_match.
Qed.

Lemma line_not_ending_in_semicolon_passes_through_witness :
  (47 ≠ 59 ∧ 47 ≠ NL)
  ∧ re_match (str "  backdrop-filter: blur(5px); /* glass *" ++ [47]) = None.
Proof.
  assert (47 ≠ 59 ∧ 47 ≠ NL) as H by (split; discriminate).
  split; [exact H|].
  exact (proj1 (line_not_ending_in_semicolon_passes_through
                  (str "  backdrop-filter: blur(5px); /* glass *") 47 [] []
                  (proj1 H) (proj2 H))).
Defined.
